(** * Verification of the linear auction-steps encoder

    Shallow embedding of [encodeLinearAuctionSteps] (src/unnamed/part_007,
    lines 10-91).  BigInt values are modelled as [Z]; BigInt [/] and [%]
    truncate towards zero, so they are [Z.quot] and [Z.rem].  A JS string is
    modelled as a [list ascii]; every character the encoder emits is ASCII.
    The thrown [Error]s are modelled by the sum type [EncodeError + _], one
    constructor per [throw] in the source. *)

From Stdlib Require Import ZArith List Ascii Lia.
Import ListNotations.
Open Scope Z_scope.

(** ** Constants (part_007, lines 11-13) *)

Definition MPS_TOTAL : Z := 10000000.
Definition MAX_MPS : Z := Z.shiftl 1 24 - 1.
Definition MAX_BLOCK_DELTA : Z := Z.shiftl 1 40 - 1.

(** ** Data model *)

(** A step, [{ mps: bigint; blockDelta: bigint }]. *)
Record Step : Type := mkStep { mps : Z; blockDelta : Z }.

(** The four [throw new Error(...)] sites of the function, in source order:
    'Duration must be positive', 'exceeds maximum block delta',
    'MPS value exceeds 24-bit maximum' and 'MPS total mismatch'. *)
Inductive EncodeError : Type :=
| InvalidDuration
| DurationTooLarge
| RateOverflow
| InternalInvariantViolation.

(** A JS string. *)
Definition jsstring := list ascii.

(** ** BigInt [toString(16)] and [String.prototype.padStart] *)

(** Lower-case hex digit of a nibble, as JS prints it. *)
Definition hex_char (n : Z) : ascii :=
  ascii_of_nat (Z.to_nat (if n <? 10 then 48 + n else 87 + n)).

(** Digits of [z] in base 16, most significant first, prepended to [acc]:
    the loop stops once the remaining value is a single digit. *)
Fixpoint to_hex_aux (fuel : nat) (z : Z) (acc : list Z) : list Z :=
  match fuel with
  | O => acc
  | S f =>
      let acc' := (z mod 16) :: acc in
      if z <? 16 then acc' else to_hex_aux f (z / 16) acc'
  end.

(** [z.toString(16)] for a non-negative BigInt [z]; [S (log2 z)] digits of
    fuel are always enough, since [z < 2 ^ (S (log2 z))]. *)
Definition toString16 (z : Z) : jsstring :=
  map hex_char (to_hex_aux (S (Z.to_nat (Z.log2 z))) z []).

(** [s.padStart(n, c)] with a one-character filler. *)
Definition padStart (n : nat) (c : ascii) (s : jsstring) : jsstring :=
  repeat c (n - length s) ++ s.

(** ** The encoder (part_007, lines 22-91) *)

(** Step construction, lines 47-61. *)
Definition build_steps (durationInBlocks baseMps remainder : Z) : list Step :=
  if remainder =? 0 then [mkStep baseMps durationInBlocks]
  else
    let blocksAtHigherMps := remainder in
    let blocksAtBaseMps := durationInBlocks - remainder in
    (if blocksAtBaseMps >? 0 then [mkStep baseMps blocksAtBaseMps] else [])
      ++ [mkStep (baseMps + 1) blocksAtHigherMps].

(** The verification loop, lines 64-67. *)
Definition total_mps (steps : list Step) : Z :=
  fold_left (fun totalMps step => totalMps + mps step * blockDelta step) steps 0.

(** [(step.mps << 40n) | step.blockDelta], line 83. *)
Definition packedValue (step : Step) : Z :=
  Z.lor (Z.shiftl (mps step) 40) (blockDelta step).

(** One 16-hex-digit record, lines 83-85. *)
Definition hexValue (step : Step) : jsstring :=
  padStart 16 "0"%char (toString16 (packedValue step)).

(** The serialisation loop, lines 80-86. *)
Definition encode_steps (steps : list Step) : jsstring :=
  fold_left (fun encoded step => encoded ++ hexValue step) steps ["0"%char; "x"%char].

Definition encodeLinearAuctionSteps (durationInBlocks : Z) : EncodeError + jsstring :=
  if durationInBlocks <=? 0 then inl InvalidDuration
  else if durationInBlocks >? MAX_BLOCK_DELTA then inl DurationTooLarge
  else
    let baseMps := Z.quot MPS_TOTAL durationInBlocks in
    let remainder := Z.rem MPS_TOTAL durationInBlocks in
    if ((baseMps >? MAX_MPS) || (baseMps + 1 >? MAX_MPS))%bool then inl RateOverflow
    else
      let steps := build_steps durationInBlocks baseMps remainder in
      let totalMps := total_mps steps in
      if negb (totalMps =? MPS_TOTAL) then inl InternalInvariantViolation
      else inr (encode_steps steps).

(** ** Reading the output back

    The contract reads the hex string as bytes and every 8 bytes as one
    big-endian 64-bit record.  These functions are that reading; they are
    not part of the source. *)

Definition hex_val (c : ascii) : option Z :=
  let n := Z.of_nat (nat_of_ascii c) in
  if ((48 <=? n) && (n <=? 57))%bool then Some (n - 48)
  else if ((97 <=? n) && (n <=? 102))%bool then Some (n - 87)
  else None.

Fixpoint hex_nibbles (s : jsstring) : option (list Z) :=
  match s with
  | [] => Some []
  | c :: t =>
      match hex_val c, hex_nibbles t with
      | Some n, Some ns => Some (n :: ns)
      | _, _ => None
      end
  end.

Fixpoint pair_nibbles (l : list Z) : option (list Z) :=
  match l with
  | [] => Some []
  | a :: b :: t =>
      match pair_nibbles t with
      | Some bs => Some ((16 * a + b) :: bs)
      | None => None
      end
  | [_] => None
  end.

(** The byte sequence a ["0x..."] string denotes. *)
Definition bytes_of_hex (s : jsstring) : option (list Z) :=
  match s with
  | "0"%char :: "x"%char :: rest =>
      match hex_nibbles rest with
      | Some ns => pair_nibbles ns
      | None => None
      end
  | _ => None
  end.

(** Big-endian value of a byte list. *)
Definition be_value (bs : list Z) : Z :=
  fold_left (fun acc b => acc * 256 + b) bs 0.

(** Rate is the top 24 bits, duration the low 40 bits of the record. *)
Definition decode_record (v : Z) : Step :=
  mkStep (Z.shiftr v 40) (Z.land v (Z.ones 40)).

Fixpoint records_of_bytes (bs : list Z) : option (list Step) :=
  match bs with
  | [] => Some []
  | b0 :: b1 :: b2 :: b3 :: b4 :: b5 :: b6 :: b7 :: t =>
      match records_of_bytes t with
      | Some rs => Some (decode_record (be_value [b0; b1; b2; b3; b4; b5; b6; b7]) :: rs)
      | None => None
      end
  | _ => None
  end.

Definition decode_schedule (s : jsstring) : option (list Step) :=
  match bytes_of_hex s with
  | Some bs => records_of_bytes bs
  | None => None
  end.

Definition sum_duration (steps : list Step) : Z :=
  fold_left (fun acc step => acc + blockDelta step) steps 0.

(** Fixed-width big-endian digits, used to state the layout. *)
Fixpoint be_digits (base : Z) (n : nat) (v : Z) : list Z :=
  match n with
  | O => []
  | S k => ((v / base ^ Z.of_nat k) mod base) :: be_digits base k v
  end.

Definition be_bytes (n : nat) (v : Z) : list Z := be_digits 256 n v.

(** ** Auction creation: the caller [handleSubmit] (part_007, lines 138-303)

    The values [handleSubmit] gets from libraries are inputs here:
    [connected] is [isConnected && address], [currentBlock] is the result of
    [publicClient?.getBlockNumber()] ([None] for [undefined]),
    [durationInDays] is [parseInt(formData.duration)] (the form offers 1, 3,
    7, 14 and 30), [userFloorPrice] is [parseEther(formData.floorPrice)] and
    [required] is [parseEther(formData.requiredCurrencyRaised)].  The
    address fields of the parameters are copied from the form and the
    wallet unchanged and are left out of the record. *)

Definition blocksPerDay : Z := (24 * 60 * 60) / 12.
Definition MIN_FLOOR_PRICE : Z := 4294967296.
Definition MIN_TICK_SPACING : Z := 2.
Definition MAX_UINT128 : Z := Z.shiftl 1 128 - 1.

Record AuctionParameters : Type := mkAuctionParameters {
  startBlock : Z;
  endBlock : Z;
  claimBlock : Z;
  tickSpacing : Z;
  floorPrice : Z;
  requiredCurrencyRaised : Z;
  auctionStepsData : jsstring }.

(** How [handleSubmit] ends: one of its [alert]s, an [Error] thrown by the
    encoder (caught and alerted), or the [createAuction] call. *)
Inductive SubmitOutcome : Type :=
| NotConnected
| NoBlockNumber
| EncodeFailed (e : EncodeError)
| RequiredTooLarge
| CreateAuctionCall (p : AuctionParameters).

Definition handleSubmit (connected : bool) (currentBlock : option Z)
    (durationInDays userFloorPrice required : Z) : SubmitOutcome :=
  if negb connected then NotConnected
  else
    match currentBlock with
    | None => NoBlockNumber
    | Some cb =>
        if cb =? 0 then NoBlockNumber
        else
          let durationInBlocks := blocksPerDay * durationInDays in
          let startBlock := cb + 300 in
          let endBlock := startBlock + durationInBlocks in
          let claimBlock := endBlock + 100 in
          let floorPrice :=
            if userFloorPrice >? MIN_FLOOR_PRICE then userFloorPrice else MIN_FLOOR_PRICE in
          let tickSpacing0 := Z.quot floorPrice 100 in
          let tickSpacing :=
            if tickSpacing0 <? MIN_TICK_SPACING then MIN_TICK_SPACING else tickSpacing0 in
          match encodeLinearAuctionSteps durationInBlocks with
          | inl e => EncodeFailed e
          | inr data =>
              let params :=
                mkAuctionParameters startBlock endBlock claimBlock tickSpacing
                  floorPrice required data in
              if requiredCurrencyRaised params >? MAX_UINT128 then RequiredTooLarge
              else CreateAuctionCall params
          end
    end.

(** ** The [AuctionCreated] log (part_007, lines 121-135) *)

(** A receipt log; only its topics are read. *)
Record Log : Type := mkLog { topics : list jsstring }.

Definition jsstring_eqb (a b : jsstring) : bool :=
  if list_eq_dec ascii_dec a b then true else false.

(** [auctionCreatedTopic] stands for
    [keccak256(toHex('AuctionCreated(address,address,uint256,bytes)'))].
    The first log whose [topics[0]] equals it is taken; its [topics[1]], if
    present and non-empty, gives the address [0x${topics[1].slice(26)}]. *)
Definition extractAuctionAddress (auctionCreatedTopic : jsstring) (logs : list Log)
    : option jsstring :=
  match find (fun log => match nth_error (topics log) 0 with
                         | Some t0 => jsstring_eqb t0 auctionCreatedTopic
                         | None => false
                         end) logs with
  | Some log =>
      match nth_error (topics log) 1 with
      | Some ((_ :: _) as t1) => Some (["0"%char; "x"%char] ++ skipn 26 t1)
      | _ => None
      end
  | None => None
  end.

Example ex_encode_3 :
  encodeLinearAuctionSteps 3 = inr (encode_steps [mkStep 3333333 2; mkStep 3333334 1]).
Proof. vm_compute. reflexivity. Qed.

Example ex_decode_3 :
  decode_schedule (match encodeLinearAuctionSteps 3 with inr s => s | inl _ => [] end)
  = Some [mkStep 3333333 2; mkStep 3333334 1].
Proof. vm_compute. reflexivity. Qed.

Example ex_encode_7200 :
  encodeLinearAuctionSteps 7200 = inr (encode_steps [mkStep 1388 800; mkStep 1389 6400]).
Proof. vm_compute. reflexivity. Qed.

(** ** Digit lemmas *)

Lemma be_digits_length (b : Z) (n : nat) (v : Z) : length (be_digits b n v) = n.
Proof. induction n; simpl; congruence. Qed.

Lemma be_digits_bound (b : Z) (n : nat) (v : Z) :
  0 < b -> Forall (fun x => 0 <= x < b) (be_digits b n v).
Proof.
  intros Hb. induction n; simpl; constructor; auto.
  apply Z.mod_pos_bound; lia.
Qed.

(** Leading zero digits of a small value. *)
Lemma be_digits_pad (b : Z) (j k : nat) (z : Z) :
  1 < b -> 0 <= z < b ^ Z.of_nat k ->
  be_digits b (j + k) z = repeat 0 j ++ be_digits b k z.
Proof.
  intros Hb Hz. induction j as [|j IH]; [reflexivity|].
  cbn [Nat.add be_digits repeat app]. rewrite IH. f_equal.
  rewrite Z.div_small; [reflexivity|]. split; [lia|].
  eapply Z.lt_le_trans; [apply Hz|]. apply Z.pow_le_mono_r; lia.
Qed.

(** Peeling the last digit. *)
Lemma be_digits_snoc (b : Z) (k : nat) (v : Z) :
  0 < b -> be_digits b (S k) v = be_digits b k (v / b) ++ [v mod b].
Proof.
  intros Hb. induction k as [|k IH].
  - simpl. rewrite Z.div_1_r. reflexivity.
  - change (be_digits b (S (S k)) v)
      with (((v / b ^ Z.of_nat (S k)) mod b) :: be_digits b (S k) v).
    rewrite IH. cbn [be_digits app]. f_equal. f_equal.
    rewrite Z.div_div by (try apply Z.pow_pos_nonneg; lia).
    rewrite Nat2Z.inj_succ, Z.pow_succ_r by lia. reflexivity.
Qed.

Lemma to_hex_aux_spec (f : nat) :
  forall z acc, (1 <= f)%nat -> 0 <= z < 16 ^ Z.of_nat f ->
  exists k, (1 <= k <= f)%nat /\ z < 16 ^ Z.of_nat k /\
    (k = 1%nat \/ 16 ^ Z.of_nat (k - 1) <= z) /\
    to_hex_aux f z acc = be_digits 16 k z ++ acc.
Proof.
  induction f as [|f IH]; intros z acc Hf Hz; [lia|].
  cbn [to_hex_aux]. destruct (Z.ltb_spec z 16) as [Hlt|Hge].
  - exists 1%nat. repeat split; try lia.
    simpl. rewrite Z.div_1_r, Z.mod_small by lia. reflexivity.
  - destruct f as [|f'].
    + simpl in Hz. lia.
    + assert (Hq : 0 <= z / 16 < 16 ^ Z.of_nat (S f')).
      { split; [apply Z.div_pos; lia|].
        apply Z.div_lt_upper_bound; [lia|].
        rewrite <- Z.pow_succ_r by lia. rewrite <- Nat2Z.inj_succ. exact (proj2 Hz). }
      destruct (IH (z / 16) ((z mod 16) :: acc) ltac:(lia) Hq)
        as (k & Hk & Hzk & Hmin & Heq).
      exists (S k). split; [lia|]. split; [|split].
      * rewrite Nat2Z.inj_succ, Z.pow_succ_r by lia.
        pose proof (Z.mod_pos_bound z 16 ltac:(lia)).
        pose proof (Z.div_mod z 16 ltac:(lia)). lia.
      * right. replace (S k - 1)%nat with k by lia.
        destruct Hmin as [->|Hmin].
        -- simpl. lia.
        -- replace (Z.of_nat k) with (Z.succ (Z.of_nat (k - 1))) by lia.
           rewrite Z.pow_succ_r by lia.
           pose proof (Z.div_mod z 16 ltac:(lia)).
           pose proof (Z.mod_pos_bound z 16 ltac:(lia)). lia.
      * rewrite Heq, be_digits_snoc by lia. rewrite <- app_assoc. reflexivity.
Qed.

Lemma hex_char_0 : hex_char 0 = "0"%char.
Proof. reflexivity. Qed.

Lemma toString16_padded (z : Z) :
  0 <= z < 16 ^ 16 ->
  padStart 16 "0"%char (toString16 z) = map hex_char (be_digits 16 16 z).
Proof.
  intros Hz. unfold toString16.
  set (f := S (Z.to_nat (Z.log2 z))).
  assert (Hf : 0 <= z < 16 ^ Z.of_nat f).
  { split; [lia|]. subst f. rewrite Nat2Z.inj_succ, Z2Nat.id by apply Z.log2_nonneg.
    destruct (Z.eq_dec z 0) as [->|Hnz]; [reflexivity|].
    destruct (Z.log2_spec z ltac:(lia)) as [_ Hhi].
    eapply Z.lt_le_trans; [apply Hhi|]. apply Z.pow_le_mono_l. lia. }
  destruct (to_hex_aux_spec f z [] ltac:(lia) Hf) as (k & Hk & Hzk & Hmin & Heq).
  rewrite Heq, app_nil_r.
  assert (Hk16 : (k <= 16)%nat).
  { destruct Hmin as [->|Hmin]; [lia|].
    destruct (Nat.le_gt_cases k 16) as [|Hgt]; [assumption|].
    exfalso. assert (16 ^ 16 <= 16 ^ Z.of_nat (k - 1)) by (apply Z.pow_le_mono_r; lia).
    lia. }
  unfold padStart. rewrite length_map, be_digits_length.
  assert (E : be_digits 16 16 z = repeat 0 (16 - k) ++ be_digits 16 k z).
  { rewrite <- be_digits_pad by lia. f_equal. lia. }
  rewrite E.
  rewrite map_app, map_repeat, hex_char_0. reflexivity.
Qed.

(** ** Reading back the hex string *)

Lemma hex_val_hex_char (n : Z) : 0 <= n < 16 -> hex_val (hex_char n) = Some n.
Proof.
  intros Hn. rewrite <- (Z2Nat.id n) by lia.
  assert (Hm : (Z.to_nat n < 16)%nat) by lia.
  generalize (Z.to_nat n) Hm. clear. intros m Hm.
  do 16 (destruct m as [|m]; [reflexivity|]). lia.
Qed.

Lemma hex_nibbles_map (l : list Z) :
  Forall (fun x => 0 <= x < 16) l -> hex_nibbles (map hex_char l) = Some l.
Proof.
  induction 1 as [|x l Hx _ IH]; [reflexivity|].
  simpl. rewrite hex_val_hex_char, IH by assumption. reflexivity.
Qed.

Lemma pair_nibbles_be (n : nat) (v : Z) (t : list Z) :
  pair_nibbles (be_digits 16 (2 * n) v ++ t)
  = match pair_nibbles t with
    | Some r => Some (be_bytes n v ++ r)
    | None => None
    end.
Proof.
  induction n as [|n IH].
  - simpl. destruct (pair_nibbles t); reflexivity.
  - replace (2 * S n)%nat with (S (S (2 * n))) by lia.
    cbn [be_digits app pair_nibbles]. rewrite IH.
    destruct (pair_nibbles t) as [r|]; [|reflexivity].
    unfold be_bytes. cbn [be_digits app]. do 2 f_equal.
    set (w := v / 16 ^ Z.of_nat (2 * n)).
    assert (Hw : v / 256 ^ Z.of_nat n = w).
    { subst w. rewrite Nat2Z.inj_mul, Z.pow_mul_r by lia. reflexivity. }
    assert (Hw1 : v / 16 ^ Z.of_nat (S (2 * n)) = w / 16).
    { subst w. rewrite Z.div_div by (try apply Z.pow_pos_nonneg; lia).
      rewrite Nat2Z.inj_succ, Z.pow_succ_r by lia. f_equal. ring. }
    rewrite Hw, Hw1. change 256 with (16 * 16).
    rewrite Z.rem_mul_r by lia. ring.
Qed.

Lemma be_value_acc (n : nat) (v acc : Z) :
  fold_left (fun acc b => acc * 256 + b) (be_digits 256 n v) acc
  = acc * 256 ^ Z.of_nat n + v mod 256 ^ Z.of_nat n.
Proof.
  revert acc. induction n as [|n IH]; intros acc.
  - simpl. rewrite Z.mod_1_r. ring.
  - cbn [be_digits fold_left]. rewrite IH.
    rewrite Nat2Z.inj_succ, Z.pow_succ_r by lia.
    rewrite (Z.mul_comm 256 (256 ^ Z.of_nat n)).
    rewrite Z.rem_mul_r by (try (apply Z.pow_nonzero); lia). ring.
Qed.

Lemma be_value_be_bytes (v : Z) : 0 <= v < 2 ^ 64 -> be_value (be_bytes 8 v) = v.
Proof.
  intros Hv. unfold be_value, be_bytes. rewrite be_value_acc.
  rewrite Z.mod_small; [ring|]. exact Hv.
Qed.

Lemma packedValue_add (s : Step) :
  0 <= blockDelta s < 2 ^ 40 -> packedValue s = mps s * 2 ^ 40 + blockDelta s.
Proof.
  intros Hd. unfold packedValue. rewrite Z.shiftl_mul_pow2 by lia.
  assert (Hand : Z.land (mps s * 2 ^ 40) (blockDelta s) = 0).
  { apply Z.bits_inj'. intros i Hi. rewrite Z.land_spec, Z.bits_0.
    destruct (Z.lt_ge_cases i 40) as [Hlt|Hge].
    - rewrite <- Z.shiftl_mul_pow2 by lia. rewrite Z.shiftl_spec_low by lia. reflexivity.
    - rewrite <- (Z.mod_small (blockDelta s) (2 ^ 40)) by lia.
      rewrite Z.mod_pow2_bits_high by lia. apply Bool.andb_false_r. }
  rewrite <- Z.lxor_lor by exact Hand. rewrite Z.add_nocarry_lxor by exact Hand.
  reflexivity.
Qed.

(** The value bounds of a step that fits the record: 24-bit rate and
    40-bit duration. *)
Definition step_fits (s : Step) : Prop :=
  0 <= mps s < 2 ^ 24 /\ 0 <= blockDelta s < 2 ^ 40.

Lemma packedValue_bound (s : Step) : step_fits s -> 0 <= packedValue s < 2 ^ 64.
Proof. intros [Hr Hd]. rewrite packedValue_add by exact Hd. lia. Qed.

Lemma decode_record_packed (s : Step) : step_fits s -> decode_record (packedValue s) = s.
Proof.
  intros [Hr Hd]. rewrite packedValue_add by exact Hd. unfold decode_record.
  destruct s as [r d]; simpl in *. f_equal.
  - rewrite Z.shiftr_div_pow2 by lia. rewrite Z.div_add_l by lia.
    rewrite Z.div_small by lia. ring.
  - rewrite Z.land_ones by lia. rewrite Z.add_comm, Z.mod_add by lia.
    apply Z.mod_small; lia.
Qed.

Lemma encode_steps_app (steps : list Step) (acc : jsstring) :
  fold_left (fun encoded step => encoded ++ hexValue step) steps acc
  = acc ++ flat_map hexValue steps.
Proof.
  revert acc. induction steps as [|s steps IH]; intros acc; simpl.
  - rewrite app_nil_r. reflexivity.
  - rewrite IH, app_assoc. reflexivity.
Qed.

Lemma hexValue_digits (s : Step) :
  step_fits s -> hexValue s = map hex_char (be_digits 16 16 (packedValue s)).
Proof.
  intros Hs. unfold hexValue. apply toString16_padded.
  pose proof (packedValue_bound s Hs). change (16 ^ 16) with (2 ^ 64). lia.
Qed.

(** Byte layout of the serialisation loop. *)
Lemma bytes_of_encode_steps (steps : list Step) :
  Forall step_fits steps ->
  bytes_of_hex (encode_steps steps)
  = Some (flat_map (fun s => be_bytes 8 (packedValue s)) steps).
Proof.
  intros Hfit. unfold encode_steps. rewrite encode_steps_app. simpl.
  assert (Hmap : flat_map hexValue steps
                 = map hex_char (flat_map (fun s => be_digits 16 16 (packedValue s)) steps)).
  { induction Hfit as [|s l Hs _ IH]; [reflexivity|].
    cbn [flat_map]. rewrite map_app, IH, hexValue_digits by exact Hs. reflexivity. }
  rewrite Hmap, hex_nibbles_map.
  - clear Hfit Hmap. induction steps as [|s l IH]; [reflexivity|].
    cbn [flat_map]. pose proof (pair_nibbles_be 8 (packedValue s)) as P.
    change (2 * 8)%nat with 16%nat in P. rewrite P, IH. reflexivity.
  - apply Forall_flat_map, Forall_forall. intros s _. apply be_digits_bound. lia.
Qed.

Lemma records_of_be_bytes (v : Z) (t : list Z) :
  records_of_bytes (be_bytes 8 v ++ t)
  = match records_of_bytes t with
    | Some rs => Some (decode_record (be_value (be_bytes 8 v)) :: rs)
    | None => None
    end.
Proof. reflexivity. Qed.

Lemma decode_encode_steps (steps : list Step) :
  Forall step_fits steps -> decode_schedule (encode_steps steps) = Some steps.
Proof.
  intros Hfit. unfold decode_schedule. rewrite bytes_of_encode_steps by exact Hfit.
  induction Hfit as [|s l Hs _ IH]; [reflexivity|].
  cbn [flat_map]. rewrite records_of_be_bytes, IH.
  rewrite be_value_be_bytes by (apply packedValue_bound; exact Hs).
  rewrite decode_record_packed by exact Hs. reflexivity.
Qed.

(** ** Arithmetic of the step construction *)

Lemma MAX_MPS_val : MAX_MPS = 16777215.
Proof. reflexivity. Qed.

Lemma MAX_BLOCK_DELTA_val : MAX_BLOCK_DELTA = 1099511627775.
Proof. reflexivity. Qed.

Lemma quot_rem_facts (d : Z) :
  1 <= d ->
  Z.quot MPS_TOTAL d = MPS_TOTAL / d /\ Z.rem MPS_TOTAL d = MPS_TOTAL mod d /\
  MPS_TOTAL = d * Z.quot MPS_TOTAL d + Z.rem MPS_TOTAL d /\
  0 <= Z.rem MPS_TOTAL d < d /\ 0 <= Z.quot MPS_TOTAL d <= MPS_TOTAL.
Proof.
  intros Hd. unfold MPS_TOTAL.
  rewrite Z.quot_div_nonneg, Z.rem_mod_nonneg by lia.
  split; [reflexivity|]. split; [reflexivity|].
  split; [apply Z.div_mod; lia|]. split; [apply Z.mod_pos_bound; lia|].
  split; [apply Z.div_pos; lia|]. apply Z.div_le_upper_bound; lia.
Qed.

(** The shape of [build_steps] on the quotient and remainder: Step A is
    never dropped, since the remainder is below the duration. *)
Lemma build_steps_shape (d : Z) :
  1 <= d ->
  build_steps d (Z.quot MPS_TOTAL d) (Z.rem MPS_TOTAL d)
  = if Z.rem MPS_TOTAL d =? 0 then [mkStep (Z.quot MPS_TOTAL d) d]
    else [mkStep (Z.quot MPS_TOTAL d) (d - Z.rem MPS_TOTAL d);
          mkStep (Z.quot MPS_TOTAL d + 1) (Z.rem MPS_TOTAL d)].
Proof.
  intros Hd. destruct (quot_rem_facts d Hd) as (_ & _ & _ & Hr & _).
  unfold build_steps. destruct (Z.rem MPS_TOTAL d =? 0); [reflexivity|].
  replace (d - Z.rem MPS_TOTAL d >? 0) with true by (rewrite Z.gtb_ltb; symmetry; apply Z.ltb_lt; lia).
  reflexivity.
Qed.

Lemma build_steps_sums (d : Z) :
  1 <= d ->
  total_mps (build_steps d (Z.quot MPS_TOTAL d) (Z.rem MPS_TOTAL d)) = MPS_TOTAL /\
  sum_duration (build_steps d (Z.quot MPS_TOTAL d) (Z.rem MPS_TOTAL d)) = d.
Proof.
  intros Hd. rewrite build_steps_shape by exact Hd.
  destruct (quot_rem_facts d Hd) as (_ & _ & Hdm & Hr & Hq).
  destruct (Z.eqb_spec (Z.rem MPS_TOTAL d) 0) as [H0|H0];
    unfold total_mps, sum_duration; simpl; split; lia.
Qed.

Lemma build_steps_bounds (d : Z) :
  1 <= d <= MAX_BLOCK_DELTA ->
  Forall (fun st => 0 <= mps st <= 16777215 /\ 1 <= blockDelta st <= 1099511627775)
         (build_steps d (Z.quot MPS_TOTAL d) (Z.rem MPS_TOTAL d)).
Proof.
  intros Hd. rewrite MAX_BLOCK_DELTA_val in Hd.
  rewrite build_steps_shape by lia.
  destruct (quot_rem_facts d ltac:(lia)) as (_ & _ & _ & Hr & Hq).
  unfold MPS_TOTAL in Hq.
  destruct (Z.eqb_spec (Z.rem MPS_TOTAL d) 0) as [H0|H0];
    repeat apply Forall_cons; try apply Forall_nil; simpl; unfold MPS_TOTAL in *; lia.
Qed.

Lemma encode_in_range (d : Z) :
  1 <= d <= MAX_BLOCK_DELTA ->
  encodeLinearAuctionSteps d
  = inr (encode_steps (build_steps d (Z.quot MPS_TOTAL d) (Z.rem MPS_TOTAL d))).
Proof.
  intros Hd. unfold encodeLinearAuctionSteps.
  replace (d <=? 0) with false by (symmetry; apply Z.leb_gt; lia).
  replace (d >? MAX_BLOCK_DELTA) with false by (rewrite Z.gtb_ltb; symmetry; apply Z.ltb_ge; lia).
  destruct (quot_rem_facts d ltac:(lia)) as (_ & _ & _ & _ & Hq).
  rewrite MAX_MPS_val. unfold MPS_TOTAL in Hq |- *.
  replace (Z.quot 10000000 d >? 16777215) with false by (rewrite Z.gtb_ltb; symmetry; apply Z.ltb_ge; lia).
  replace (Z.quot 10000000 d + 1 >? 16777215) with false by (rewrite Z.gtb_ltb; symmetry; apply Z.ltb_ge; lia).
  simpl orb. cbv zeta.
  destruct (build_steps_sums d ltac:(lia)) as [Htot _]. unfold MPS_TOTAL in Htot.
  rewrite Htot. reflexivity.
Qed.

Lemma encode_inr_inv (d : Z) (s : jsstring) :
  encodeLinearAuctionSteps d = inr s ->
  1 <= d <= MAX_BLOCK_DELTA /\
  s = encode_steps (build_steps d (Z.quot MPS_TOTAL d) (Z.rem MPS_TOTAL d)).
Proof.
  intros H. assert (Hd : 1 <= d <= MAX_BLOCK_DELTA).
  { unfold encodeLinearAuctionSteps in H.
    destruct (Z.leb_spec d 0); [discriminate|].
    destruct (Z.gtb_spec d MAX_BLOCK_DELTA); [discriminate|]. lia. }
  split; [exact Hd|]. rewrite encode_in_range in H by exact Hd.
  injection H as <-. reflexivity.
Qed.

Lemma build_steps_fit (d : Z) :
  1 <= d <= MAX_BLOCK_DELTA ->
  Forall step_fits (build_steps d (Z.quot MPS_TOTAL d) (Z.rem MPS_TOTAL d)).
Proof.
  intros Hd. eapply Forall_impl; [|apply build_steps_bounds, Hd].
  intros st [Hr Hdl]. unfold step_fits. lia.
Qed.

Lemma length_flat_map_be_bytes (f : Step -> Z) (l : list Step) :
  length (flat_map (fun st => be_bytes 8 (f st)) l) = (8 * length l)%nat.
Proof.
  induction l as [|st l IH]; [reflexivity|].
  cbn [flat_map]. rewrite length_app. unfold be_bytes in *.
  rewrite be_digits_length, IH. simpl. lia.
Qed.

(** The three outcomes of the encoder. *)
Lemma encode_cases (d : Z) :
  (d <= 0 /\ encodeLinearAuctionSteps d = inl InvalidDuration) \/
  (MAX_BLOCK_DELTA < d /\ encodeLinearAuctionSteps d = inl DurationTooLarge) \/
  (1 <= d <= MAX_BLOCK_DELTA /\
   encodeLinearAuctionSteps d
   = inr (encode_steps (build_steps d (Z.quot MPS_TOTAL d) (Z.rem MPS_TOTAL d)))).
Proof.
  destruct (Z.le_gt_cases d 0) as [H0|H0].
  - left. split; [exact H0|]. unfold encodeLinearAuctionSteps.
    replace (d <=? 0) with true by (symmetry; apply Z.leb_le; exact H0). reflexivity.
  - right. destruct (Z.le_gt_cases d MAX_BLOCK_DELTA) as [Hle|Hgt].
    + right. split; [lia|]. apply encode_in_range. lia.
    + left. split; [lia|]. unfold encodeLinearAuctionSteps.
      replace (d <=? 0) with false by (symmetry; apply Z.leb_gt; lia).
      replace (d >? MAX_BLOCK_DELTA) with true
        by (rewrite Z.gtb_ltb; symmetry; apply Z.ltb_lt; lia).
      reflexivity.
Qed.

(** ** Claims *)

(** C1: for every duration in [[1, 1_099_511_627_775]] on which the encoder
    succeeds, reading the output back (8-byte big-endian records, rate = top
    24 bits, duration = low 40 bits) gives exactly the constructed steps,
    whose rate*duration products sum to 10,000,000 and whose durations sum
    to the requested duration. *)
Theorem C1_decode_roundtrip (d : Z) (s : jsstring) :
  1 <= d <= MAX_BLOCK_DELTA ->
  encodeLinearAuctionSteps d = inr s ->
  exists steps,
    decode_schedule s = Some steps /\
    steps = build_steps d (Z.quot MPS_TOTAL d) (Z.rem MPS_TOTAL d) /\
    total_mps steps = 10000000 /\
    sum_duration steps = d.
Proof.
  intros Hd Henc. destruct (encode_inr_inv d s Henc) as [_ ->].
  exists (build_steps d (Z.quot MPS_TOTAL d) (Z.rem MPS_TOTAL d)).
  split; [apply decode_encode_steps, build_steps_fit, Hd|].
  split; [reflexivity|]. apply build_steps_sums. lia.
Qed.

Lemma C1_decode_roundtrip_witness :
  exists s, encodeLinearAuctionSteps 3 = inr s /\
  exists steps,
    decode_schedule s = Some steps /\
    steps = build_steps 3 (Z.quot MPS_TOTAL 3) (Z.rem MPS_TOTAL 3) /\
    total_mps steps = 10000000 /\ sum_duration steps = 3.
Proof.
  eexists. split; [vm_compute; reflexivity|].
  apply C1_decode_roundtrip; [vm_compute; split; discriminate|vm_compute; reflexivity].
Defined.

(** C2: for [1 <= d <= 1_099_511_627_775], with [baseRate = 10,000,000 div d]
    and [remainder = 10,000,000 mod d], the encoder builds the single step
    [{baseRate, d}] when the remainder is zero, and otherwise the two steps
    [{baseRate, d - remainder}] then [{baseRate + 1, remainder}], and encodes
    that schedule; for [d = 3] these are [{3333333, 2}] then [{3333334, 1}]. *)
Theorem C2_schedule_shape :
  (forall d, 1 <= d <= MAX_BLOCK_DELTA ->
   let baseRate := MPS_TOTAL / d in
   let remainder := MPS_TOTAL mod d in
   let expected :=
     if remainder =? 0 then [mkStep baseRate d]
     else [mkStep baseRate (d - remainder); mkStep (baseRate + 1) remainder] in
   build_steps d (Z.quot MPS_TOTAL d) (Z.rem MPS_TOTAL d) = expected /\
   encodeLinearAuctionSteps d = inr (encode_steps expected)) /\
  build_steps 3 (Z.quot MPS_TOTAL 3) (Z.rem MPS_TOTAL 3)
    = [mkStep 3333333 2; mkStep 3333334 1] /\
  encodeLinearAuctionSteps 3 = inr (encode_steps [mkStep 3333333 2; mkStep 3333334 1]).
Proof.
  split; [|split; vm_compute; reflexivity].
  intros d Hd. cbv zeta.
  destruct (quot_rem_facts d ltac:(lia)) as (Hq & Hr & _).
  rewrite <- Hq, <- Hr, <- build_steps_shape by lia.
  split; [reflexivity|]. apply encode_in_range, Hd.
Qed.

Lemma C2_schedule_shape_witness :
  build_steps 10000000 (Z.quot MPS_TOTAL 10000000) (Z.rem MPS_TOTAL 10000000)
    = [mkStep 1 10000000] /\
  encodeLinearAuctionSteps 10000000 = inr (encode_steps [mkStep 1 10000000]).
Proof.
  exact (proj1 C2_schedule_shape 10000000 ltac:(vm_compute; split; discriminate)).
Defined.

(** C3: whenever the encoder succeeds, the bytes its ["0x..."] output
    denotes are, in step order, one 8-byte big-endian record per step with
    value [(rate << 40) | duration]; the output has [8 * #steps] bytes
    ([2 + 16 * #steps] characters), and there are one or two steps. *)
Theorem C3_byte_layout (d : Z) (s : jsstring) :
  encodeLinearAuctionSteps d = inr s ->
  let steps := build_steps d (Z.quot MPS_TOTAL d) (Z.rem MPS_TOTAL d) in
  exists bytes,
    bytes_of_hex s = Some bytes /\
    bytes = flat_map (fun st => be_bytes 8 (Z.lor (Z.shiftl (mps st) 40) (blockDelta st))) steps /\
    length bytes = (8 * length steps)%nat /\
    length s = (2 + 16 * length steps)%nat /\
    (length steps = 1%nat \/ length steps = 2%nat).
Proof.
  intros Henc steps. destruct (encode_inr_inv d s Henc) as [Hd ->].
  pose proof (build_steps_fit d Hd) as Hfit. fold steps in Hfit |- *.
  eexists. split; [apply bytes_of_encode_steps, Hfit|]. split; [reflexivity|].
  split; [|split].
  - apply length_flat_map_be_bytes.
  - unfold encode_steps. rewrite encode_steps_app, length_app.
    assert (Hlen : length (flat_map hexValue steps) = (16 * length steps)%nat).
    { clear Henc. induction Hfit as [|st l Hst _ IH]; [reflexivity|].
      cbn [flat_map]. rewrite length_app, IH.
      rewrite hexValue_digits, length_map, be_digits_length by exact Hst.
      simpl. lia. }
    rewrite Hlen. reflexivity.
  - subst steps. rewrite build_steps_shape by lia.
    destruct (Z.rem MPS_TOTAL d =? 0); [left|right]; reflexivity.
Qed.

Lemma C3_byte_layout_witness :
  exists s, encodeLinearAuctionSteps 3 = inr s /\
  exists bytes,
    bytes_of_hex s = Some bytes /\
    bytes = flat_map (fun st => be_bytes 8 (Z.lor (Z.shiftl (mps st) 40) (blockDelta st)))
              (build_steps 3 (Z.quot MPS_TOTAL 3) (Z.rem MPS_TOTAL 3)) /\
    length bytes = (8 * length (build_steps 3 (Z.quot MPS_TOTAL 3) (Z.rem MPS_TOTAL 3)))%nat /\
    length s = (2 + 16 * length (build_steps 3 (Z.quot MPS_TOTAL 3) (Z.rem MPS_TOTAL 3)))%nat /\
    (length (build_steps 3 (Z.quot MPS_TOTAL 3) (Z.rem MPS_TOTAL 3)) = 1%nat \/
     length (build_steps 3 (Z.quot MPS_TOTAL 3) (Z.rem MPS_TOTAL 3)) = 2%nat).
Proof.
  eexists. split; [vm_compute; reflexivity|].
  apply (C3_byte_layout 3). vm_compute. reflexivity.
Defined.

(** C4: the encoder fails with [InvalidDuration] exactly on durations
    [<= 0], at its first check; [encode 0] and [encode (-5)] do. *)
Theorem C4_invalid_duration :
  (forall d, encodeLinearAuctionSteps d = inl InvalidDuration <-> d <= 0) /\
  encodeLinearAuctionSteps 0 = inl InvalidDuration /\
  encodeLinearAuctionSteps (-5) = inl InvalidDuration.
Proof.
  split; [|split; reflexivity].
  intros d. unfold encodeLinearAuctionSteps. split.
  - destruct (Z.leb_spec d 0) as [H|H]; [intros _; exact H|].
    destruct (d >? MAX_BLOCK_DELTA); [discriminate|].
    destruct (_ || _)%bool; [discriminate|].
    destruct (negb _); discriminate.
  - intros H. replace (d <=? 0) with true by (symmetry; apply Z.leb_le; exact H).
    reflexivity.
Qed.

(** C5: on positive durations the encoder fails with [DurationTooLarge]
    exactly when the duration exceeds 1,099,511,627,775; that value itself
    is accepted and the next one is refused. *)
Theorem C5_duration_too_large (d : Z) :
  0 < d ->
  (encodeLinearAuctionSteps d = inl DurationTooLarge <-> d > 1099511627775) /\
  (exists s, encodeLinearAuctionSteps 1099511627775 = inr s) /\
  encodeLinearAuctionSteps 1099511627776 = inl DurationTooLarge.
Proof.
  intros Hd. split; [|split; [eexists; vm_compute; reflexivity|vm_compute; reflexivity]].
  split.
  - intros H. destruct (Z.le_gt_cases d MAX_BLOCK_DELTA) as [Hle|Hgt].
    + rewrite encode_in_range in H by lia. discriminate.
    + rewrite MAX_BLOCK_DELTA_val in Hgt. lia.
  - intros H. unfold encodeLinearAuctionSteps.
    replace (d <=? 0) with false by (symmetry; apply Z.leb_gt; lia).
    rewrite MAX_BLOCK_DELTA_val.
    replace (d >? 1099511627775) with true by (rewrite Z.gtb_ltb; symmetry; apply Z.ltb_lt; lia).
    reflexivity.
Qed.

Lemma C5_duration_too_large_witness :
  0 < 1099511627776 /\
  (encodeLinearAuctionSteps 1099511627776 = inl DurationTooLarge <-> 1099511627776 > 1099511627775) /\
  (exists s, encodeLinearAuctionSteps 1099511627775 = inr s) /\
  encodeLinearAuctionSteps 1099511627776 = inl DurationTooLarge.
Proof.
  split; [lia|]. apply C5_duration_too_large. lia.
Defined.

(** C6: whenever the encoder succeeds, every step of the schedule (read
    back from the output) has rate in [[0, 16_777_215]] and duration in
    [[1, 1_099_511_627_775]]. *)
Theorem C6_step_bounds (d : Z) (s : jsstring) :
  encodeLinearAuctionSteps d = inr s ->
  exists steps,
    decode_schedule s = Some steps /\
    steps = build_steps d (Z.quot MPS_TOTAL d) (Z.rem MPS_TOTAL d) /\
    Forall (fun st => 0 <= mps st <= 16777215 /\ 1 <= blockDelta st <= 1099511627775) steps.
Proof.
  intros Henc. destruct (encode_inr_inv d s Henc) as [Hd ->].
  eexists. split; [apply decode_encode_steps, build_steps_fit, Hd|].
  split; [reflexivity|]. apply build_steps_bounds, Hd.
Qed.

Lemma C6_step_bounds_witness :
  exists s, encodeLinearAuctionSteps 20000000 = inr s /\
  exists steps,
    decode_schedule s = Some steps /\
    steps = build_steps 20000000 (Z.quot MPS_TOTAL 20000000) (Z.rem MPS_TOTAL 20000000) /\
    Forall (fun st => 0 <= mps st <= 16777215 /\ 1 <= blockDelta st <= 1099511627775) steps.
Proof.
  eexists. split; [vm_compute; reflexivity|].
  apply (C6_step_bounds 20000000). vm_compute. reflexivity.
Defined.

(** C7: the cross-check before serialisation never fails: on every
    duration that passes the earlier checks the recomputed total is exactly
    10,000,000, and no input makes the encoder report
    [InternalInvariantViolation]. *)
Theorem C7_cross_check_unreachable :
  forall d,
    (1 <= d <= MAX_BLOCK_DELTA ->
     total_mps (build_steps d (Z.quot MPS_TOTAL d) (Z.rem MPS_TOTAL d)) = 10000000) /\
    encodeLinearAuctionSteps d <> inl InternalInvariantViolation.
Proof.
  intros d. split.
  - intros Hd. apply build_steps_sums. lia.
  - destruct (encode_cases d) as [[_ ->]|[[_ ->]|[_ ->]]]; discriminate.
Qed.

Lemma C7_cross_check_unreachable_witness :
  total_mps (build_steps 7200 (Z.quot MPS_TOTAL 7200) (Z.rem MPS_TOTAL 7200)) = 10000000 /\
  encodeLinearAuctionSteps 7200 <> inl InternalInvariantViolation.
Proof.
  destruct (C7_cross_check_unreachable 7200) as [H1 H2].
  split; [apply H1; vm_compute; split; discriminate|exact H2].
Defined.

(** C8: with the total fixed at 10,000,000 the rate-overflow check never
    fires: for every duration in [[1, 1_099_511_627_775]],
    [baseRate + 1 <= 16,777,215]; no input yields [RateOverflow]; and the
    encoder succeeds exactly on that range. *)
Theorem C8_rate_overflow_dead :
  forall d,
    (1 <= d <= 1099511627775 -> MPS_TOTAL / d + 1 <= MAX_MPS) /\
    encodeLinearAuctionSteps d <> inl RateOverflow /\
    ((exists s, encodeLinearAuctionSteps d = inr s) <-> 1 <= d <= 1099511627775).
Proof.
  intros d. rewrite <- MAX_BLOCK_DELTA_val. split; [|split].
  - intros Hd. destruct (quot_rem_facts d ltac:(lia)) as (Hq & _ & _ & _ & Hb).
    rewrite <- Hq, MAX_MPS_val. unfold MPS_TOTAL in *. lia.
  - destruct (encode_cases d) as [[_ ->]|[[_ ->]|[_ ->]]]; discriminate.
  - destruct (encode_cases d) as [[H ->]|[[H ->]|[H ->]]]; split.
    + intros [s Hs]; discriminate.
    + lia.
    + intros [s Hs]; discriminate.
    + lia.
    + intros _. exact H.
    + intros _. eexists. reflexivity.
Qed.

Lemma C8_rate_overflow_dead_witness :
  MPS_TOTAL / 1 + 1 <= MAX_MPS /\ encodeLinearAuctionSteps 1 <> inl RateOverflow.
Proof.
  destruct (C8_rate_overflow_dead 1) as (H1 & H2 & _).
  split; [apply H1; lia|exact H2].
Defined.

(** C9: the encoder is a function of its argument alone: two calls with
    the same duration give the same output. *)
Theorem C9_deterministic (d : Z) (o1 o2 : EncodeError + jsstring) :
  encodeLinearAuctionSteps d = o1 ->
  encodeLinearAuctionSteps d = o2 ->
  o1 = o2.
Proof. intros <- <-. reflexivity. Qed.

Lemma C9_deterministic_witness :
  encodeLinearAuctionSteps 7200 = encodeLinearAuctionSteps 7200 /\
  (exists s, encodeLinearAuctionSteps 7200 = inr s).
Proof.
  split; [exact (C9_deterministic 7200 _ _ eq_refl eq_refl)|].
  eexists. vm_compute. reflexivity.
Defined.

(** C10: the base rate [10,000,000 / d] the encoder computes is
    non-increasing in the duration over the accepted range. *)
Theorem C10_base_rate_antitone (d1 d2 : Z) :
  1 <= d1 -> d1 <= d2 -> d2 <= MAX_BLOCK_DELTA ->
  Z.quot MPS_TOTAL d2 <= Z.quot MPS_TOTAL d1.
Proof.
  intros H1 H12 _.
  destruct (quot_rem_facts d1 H1) as (Hq1 & _).
  destruct (quot_rem_facts d2 ltac:(lia)) as (Hq2 & _).
  rewrite Hq1, Hq2. apply Z.div_le_compat_l; [unfold MPS_TOTAL; lia|lia].
Qed.

Lemma C10_base_rate_antitone_witness :
  Z.quot MPS_TOTAL 7200 <= Z.quot MPS_TOTAL 3.
Proof.
  apply (C10_base_rate_antitone 3 7200); [lia|lia|vm_compute; discriminate].
Defined.

(** ** Auction creation *)

Lemma blocksPerDay_val : blocksPerDay = 7200.
Proof. reflexivity. Qed.


(** [handleSubmit] once the wallet and the block number are there: the
    floor price is clamped up to [2^32], and then the tick-spacing clamp
    never applies. *)
Lemma handleSubmit_live (b days u r : Z) :
  b <> 0 ->
  handleSubmit true (Some b) days u r
  = match encodeLinearAuctionSteps (7200 * days) with
    | inl e => EncodeFailed e
    | inr data =>
        if r >? MAX_UINT128 then RequiredTooLarge
        else CreateAuctionCall
               (mkAuctionParameters (b + 300) (b + 300 + 7200 * days)
                  (b + 300 + 7200 * days + 100)
                  (Z.quot (Z.max u MIN_FLOOR_PRICE) 100) (Z.max u MIN_FLOOR_PRICE) r data)
    end.
Proof.
  intros Hb. unfold handleSubmit. cbn [negb].
  replace (b =? 0) with false by (symmetry; apply Z.eqb_neq; exact Hb).
  rewrite blocksPerDay_val. cbv zeta.
  assert (Hfp : (if u >? MIN_FLOOR_PRICE then u else MIN_FLOOR_PRICE) = Z.max u MIN_FLOOR_PRICE).
  { unfold MIN_FLOOR_PRICE. destruct (Z.gtb_spec u 4294967296); lia. }
  rewrite Hfp.
  assert (Hts : (Z.quot (Z.max u MIN_FLOOR_PRICE) 100 <? MIN_TICK_SPACING) = false).
  { apply Z.ltb_ge. unfold MIN_TICK_SPACING, MIN_FLOOR_PRICE.
    rewrite Z.quot_div_nonneg by lia.
    apply Z.div_le_lower_bound; lia. }
  rewrite Hts. reflexivity.
Qed.

Lemma handleSubmit_create_inv (c : bool) (cb : option Z) (days u r : Z) (p : AuctionParameters) :
  handleSubmit c cb days u r = CreateAuctionCall p ->
  c = true /\ (exists b, cb = Some b /\ b <> 0 /\
    encodeLinearAuctionSteps (7200 * days) = inr (auctionStepsData p) /\
    p = mkAuctionParameters (b + 300) (b + 300 + 7200 * days) (b + 300 + 7200 * days + 100)
          (Z.quot (Z.max u MIN_FLOOR_PRICE) 100) (Z.max u MIN_FLOOR_PRICE) r
          (auctionStepsData p)) /\
  r <= MAX_UINT128.
Proof.
  intros H. destruct c; [|discriminate].
  destruct cb as [b|]; [|discriminate].
  destruct (Z.eqb_spec b 0) as [->|Hb]; [discriminate|].
  rewrite handleSubmit_live in H by exact Hb.
  destruct (encodeLinearAuctionSteps (7200 * days)) as [e|data] eqn:Henc; [discriminate|].
  destruct (Z.gtb_spec r MAX_UINT128); [discriminate|].
  injection H as <-. split; [reflexivity|]. split; [|lia].
  exists b. repeat split; auto.
Qed.

(** X1: when [handleSubmit] reaches [createAuction], the auction starts 300
    blocks after the current block, lasts [7200 * days] blocks and is
    claimable 100 blocks after its end, so [start < end < claim]. *)
Theorem handleSubmit_block_schedule (c : bool) (cb : option Z) (days u r : Z)
    (p : AuctionParameters) :
  handleSubmit c cb days u r = CreateAuctionCall p ->
  exists b, cb = Some b /\
    startBlock p = b + 300 /\
    endBlock p = startBlock p + 7200 * days /\
    claimBlock p = endBlock p + 100 /\
    startBlock p < endBlock p < claimBlock p.
Proof.
  intros H. destruct (handleSubmit_create_inv c cb days u r p H)
    as (_ & (b & Hcb & _ & Henc & Hp) & _).
  exists b. split; [exact Hcb|].
  destruct (encode_inr_inv _ _ Henc) as [Hd _].
  rewrite Hp; cbn [startBlock endBlock claimBlock]. lia.
Qed.

Lemma handleSubmit_block_schedule_witness :
  exists p, handleSubmit true (Some 5000000) 7 10000000000000 1000000000000000 = CreateAuctionCall p /\
  exists b, Some 5000000 = Some b /\
    startBlock p = b + 300 /\ endBlock p = startBlock p + 7200 * 7 /\
    claimBlock p = endBlock p + 100 /\ startBlock p < endBlock p < claimBlock p.
Proof.
  eexists. split; [vm_compute; reflexivity|].
  apply (handleSubmit_block_schedule true (Some 5000000) 7 10000000000000 1000000000000000).
  vm_compute. reflexivity.
Defined.

(** X2: the floor price sent is the user's price raised to at least
    [2^32] wei; the tick spacing is 1% of it (truncated), which is at least
    42,949,672, so the minimum-tick-spacing clamp to 2 never applies. *)
Theorem handleSubmit_price_params (c : bool) (cb : option Z) (days u r : Z)
    (p : AuctionParameters) :
  handleSubmit c cb days u r = CreateAuctionCall p ->
  floorPrice p = Z.max u MIN_FLOOR_PRICE /\
  MIN_FLOOR_PRICE <= floorPrice p /\
  tickSpacing p = Z.quot (floorPrice p) 100 /\
  42949672 <= tickSpacing p /\
  MIN_TICK_SPACING < tickSpacing p.
Proof.
  intros H. destruct (handleSubmit_create_inv c cb days u r p H)
    as (_ & (b & _ & _ & _ & Hp) & _).
  rewrite Hp; cbn [floorPrice tickSpacing].
  unfold MIN_FLOOR_PRICE, MIN_TICK_SPACING.
  assert (42949672 <= Z.quot (Z.max u 4294967296) 100).
  { rewrite Z.quot_div_nonneg by lia. apply Z.div_le_lower_bound; lia. }
  repeat split; lia.
Qed.

Lemma handleSubmit_price_params_witness :
  exists p, handleSubmit true (Some 5000000) 7 1 0 = CreateAuctionCall p /\
  floorPrice p = Z.max 1 MIN_FLOOR_PRICE /\ MIN_FLOOR_PRICE <= floorPrice p /\
  tickSpacing p = Z.quot (floorPrice p) 100 /\ 42949672 <= tickSpacing p /\
  MIN_TICK_SPACING < tickSpacing p.
Proof.
  eexists. split; [vm_compute; reflexivity|].
  apply (handleSubmit_price_params true (Some 5000000) 7 1 0).
  vm_compute. reflexivity.
Defined.

(** X3: the steps data [handleSubmit] sends always holds exactly two steps
    (a whole number of days, 7200 blocks each, never divides 10,000,000,
    since 9 divides 7200); read back, they are [{q, D - r}] then
    [{q + 1, r}] for [D = 7200 * days], [q = 10^7 / D], [r = 10^7 mod D],
    with rate*duration summing to 10,000,000 and durations to [D]. *)
Theorem handleSubmit_steps_data (c : bool) (cb : option Z) (days u r : Z)
    (p : AuctionParameters) :
  handleSubmit c cb days u r = CreateAuctionCall p ->
  let D := 7200 * days in
  decode_schedule (auctionStepsData p)
  = Some [mkStep (MPS_TOTAL / D) (D - MPS_TOTAL mod D);
          mkStep (MPS_TOTAL / D + 1) (MPS_TOTAL mod D)] /\
  MPS_TOTAL mod D <> 0 /\
  total_mps [mkStep (MPS_TOTAL / D) (D - MPS_TOTAL mod D);
             mkStep (MPS_TOTAL / D + 1) (MPS_TOTAL mod D)] = MPS_TOTAL /\
  sum_duration [mkStep (MPS_TOTAL / D) (D - MPS_TOTAL mod D);
                mkStep (MPS_TOTAL / D + 1) (MPS_TOTAL mod D)] = D.
Proof.
  intros H D. destruct (handleSubmit_create_inv c cb days u r p H)
    as (_ & (b & _ & _ & Henc & _) & _).
  destruct (encode_inr_inv _ _ Henc) as [Hd Hs]. fold D in Hd, Hs.
  destruct (quot_rem_facts D ltac:(lia)) as (Hq & Hr & Hdm & Hrb & _).
  assert (Hr0 : Z.rem MPS_TOTAL D <> 0).
  { intros Hz. rewrite Hz in Hdm. unfold D, MPS_TOTAL in Hdm. lia. }
  assert (Hshape : build_steps D (Z.quot MPS_TOTAL D) (Z.rem MPS_TOTAL D)
                   = [mkStep (MPS_TOTAL / D) (D - MPS_TOTAL mod D);
                      mkStep (MPS_TOTAL / D + 1) (MPS_TOTAL mod D)]).
  { rewrite build_steps_shape by lia.
    replace (Z.rem MPS_TOTAL D =? 0) with false by (symmetry; apply Z.eqb_neq; exact Hr0).
    rewrite Hq, Hr. reflexivity. }
  destruct (build_steps_sums D ltac:(lia)) as [Htot Hsum].
  rewrite Hshape in Htot, Hsum.
  rewrite Hs, <- Hshape. split; [apply decode_encode_steps, build_steps_fit, Hd|].
  rewrite Hshape. split; [rewrite <- Hr; exact Hr0|]. split; assumption.
Qed.

Lemma handleSubmit_steps_data_witness :
  exists p, handleSubmit true (Some 5000000) 1 0 0 = CreateAuctionCall p /\
  decode_schedule (auctionStepsData p)
  = Some [mkStep (MPS_TOTAL / 7200) (7200 - MPS_TOTAL mod 7200);
          mkStep (MPS_TOTAL / 7200 + 1) (MPS_TOTAL mod 7200)].
Proof.
  eexists. split; [vm_compute; reflexivity|].
  exact (proj1 (handleSubmit_steps_data true (Some 5000000) 1 0 0 _
                  ltac:(vm_compute; reflexivity))).
Defined.




(** ** The [AuctionCreated] log *)

Lemma jsstring_eqb_spec (a b : jsstring) : jsstring_eqb a b = true <-> a = b.
Proof.
  unfold jsstring_eqb. destruct (list_eq_dec ascii_dec a b); split; congruence.
Qed.

Lemma skipn_length_app {A : Type} (l1 l2 : list A) : skipn (length l1) (l1 ++ l2) = l2.
Proof. induction l1; simpl; auto. Qed.

(** Logs before the first [AuctionCreated] one do not matter. *)
Lemma extractAuctionAddress_skip (topic : jsstring) (pre post : list Log) (log : Log) :
  Forall (fun l => nth_error (topics l) 0 <> Some topic) pre ->
  extractAuctionAddress topic (pre ++ log :: post) = extractAuctionAddress topic (log :: post).
Proof.
  intros Hpre. unfold extractAuctionAddress.
  induction Hpre as [|l pre Hl _ IH]; [reflexivity|].
  cbn [app find]. destruct (nth_error (topics l) 0) as [t0|] eqn:E0.
  - destruct (jsstring_eqb t0 topic) eqn:Eq.
    + apply jsstring_eqb_spec in Eq. subst. contradiction.
    + exact IH.
  - exact IH.
Qed.

Lemma extractAuctionAddress_match (topic t1 : jsstring) (rest : list jsstring) (post : list Log) :
  extractAuctionAddress topic (mkLog (topic :: t1 :: rest) :: post)
  = match t1 with
    | [] => None
    | _ => Some (["0"%char; "x"%char] ++ skipn 26 t1)
    end.
Proof.
  unfold extractAuctionAddress. cbn [find topics nth_error].
  replace (jsstring_eqb topic topic) with true by (symmetry; apply jsstring_eqb_spec; reflexivity).
  destruct t1; reflexivity.
Qed.

(** X6: the auction address is read from the first log whose first topic
    is the [AuctionCreated] topic: when its second topic is ["0x"], 24
    characters of padding and then [addr], the address is ["0x" ++ addr]. *)
Theorem extractAuctionAddress_first (topic pad addr : jsstring) (pre post : list Log)
    (rest : list jsstring) :
  Forall (fun l => nth_error (topics l) 0 <> Some topic) pre ->
  length pad = 24%nat ->
  extractAuctionAddress topic
    (pre ++ mkLog (topic :: (["0"%char; "x"%char] ++ pad ++ addr) :: rest) :: post)
  = Some (["0"%char; "x"%char] ++ addr).
Proof.
  intros Hpre Hpad. rewrite extractAuctionAddress_skip by exact Hpre.
  rewrite extractAuctionAddress_match. cbn [app].
  replace 26%nat with (S (S (length pad))) by (rewrite Hpad; reflexivity).
  change (skipn (S (S (length pad))) ("0"%char :: "x"%char :: pad ++ addr))
    with (skipn (length pad) (pad ++ addr)).
  rewrite skipn_length_app. reflexivity.
Qed.

Lemma extractAuctionAddress_first_witness :
  extractAuctionAddress ["t"%char]
    ([mkLog [["o"%char]]] ++
     mkLog (["t"%char] :: (["0"%char; "x"%char] ++ repeat "0"%char 24 ++ ["a"%char; "b"%char]) :: [])
       :: [mkLog [["t"%char]; ["0"%char; "x"%char; "c"%char]]])
  = Some ["0"%char; "x"%char; "a"%char; "b"%char].
Proof.
  apply (extractAuctionAddress_first ["t"%char] (repeat "0"%char 24) ["a"%char; "b"%char]
           [mkLog [["o"%char]]] [mkLog [["t"%char]; ["0"%char; "x"%char; "c"%char]]] []).
  - repeat constructor. discriminate.
  - reflexivity.
Defined.

(** X7: only the first matching log is looked at: when its second topic
    is missing or empty, no address is extracted, whatever later logs
    hold. *)
Theorem extractAuctionAddress_first_without_address (topic : jsstring)
    (pre post : list Log) (rest : list jsstring) :
  Forall (fun l => nth_error (topics l) 0 <> Some topic) pre ->
  extractAuctionAddress topic (pre ++ mkLog [topic] :: post) = None /\
  extractAuctionAddress topic (pre ++ mkLog (topic :: [] :: rest) :: post) = None.
Proof.
  intros Hpre. rewrite !extractAuctionAddress_skip by exact Hpre.
  unfold extractAuctionAddress. cbn [find topics nth_error].
  replace (jsstring_eqb topic topic) with true by (symmetry; apply jsstring_eqb_spec; reflexivity).
  split; reflexivity.
Qed.

Lemma extractAuctionAddress_first_without_address_witness :
  extractAuctionAddress ["t"%char]
    ([] ++ mkLog [["t"%char]] :: [mkLog [["t"%char]; ["0"%char; "x"%char; "c"%char]]]) = None /\
  extractAuctionAddress ["t"%char]
    ([] ++ mkLog (["t"%char] :: [] :: []) :: [mkLog [["t"%char]; ["0"%char; "x"%char; "c"%char]]])
  = None.
Proof.
  apply (extractAuctionAddress_first_without_address ["t"%char] []
           [mkLog [["t"%char]; ["0"%char; "x"%char; "c"%char]]] []).
  constructor.
Defined.
